(** * Day 2: safety of level records, with and without dampening

    A shallow embedding of [src/day2.py].  Python integers are unbounded,
    so levels and deltas are [Z]; a record is a [list Z].  A generator is
    modelled by the list of the values it yields: every generator of the
    script is consumed at most once and yields pure values, so laziness is
    only visible through exceptions, and exceptions are explicit here
    (type [Py.result]).  The eager model raises whenever the lazy program
    could, so the totality lemmas below carry over to the script. *)

From Stdlib Require Import ZArith List Lia Bool Permutation.
Import ListNotations.

Local Open Scope Z_scope.

(** ** The fragment of the Python runtime the script relies on *)

Module Py.

Inductive exn : Type := StopIteration | IndexError.

Inductive result (A : Type) : Type :=
| Ok (a : A)
| Raise (e : exn).

Arguments Ok {A} a.
Arguments Raise {A} e.

Definition bind {A B : Type} (c : result A) (k : A -> result B) : result B :=
  match c with
  | Ok a => k a
  | Raise e => Raise e
  end.

(** [next(it)]: the first value and the advanced iterator, or
    [StopIteration] on an exhausted one. *)
Definition next {A : Type} (it : list A) : result (A * list A) :=
  match it with
  | [] => Raise StopIteration
  | x :: it' => Ok (x, it')
  end.

(** [range(n)] for [n = len(...)]. *)
Definition range (n : nat) : list Z := map Z.of_nat (seq 0 n).

(** [l[i]]: a negative index counts from the end, anything outside
    [-len(l) .. len(l)-1] raises [IndexError]. *)
Definition getitem (l : list Z) (i : Z) : result Z :=
  let n := Z.of_nat (length l) in
  let j := if i <? 0 then i + n else i in
  if (j <? 0) || (n <=? j) then Raise IndexError
  else match nth_error l (Z.to_nat j) with
       | Some x => Ok x
       | None => Raise IndexError
       end.

(** [(f(x) for x in xs if cond(x))], consumed to the end. *)
Fixpoint genexp {A B : Type} (f : A -> result B) (cond : A -> bool)
         (xs : list A) : result (list B) :=
  match xs with
  | [] => Ok []
  | x :: xs' =>
      if cond x
      then bind (f x) (fun y => bind (genexp f cond xs') (fun ys => Ok (y :: ys)))
      else genexp f cond xs'
  end.

(** [any(f(x) for x in xs)]: stops at the first true value; an element
    after it is never evaluated. *)
Fixpoint any {A : Type} (f : A -> result bool) (xs : list A) : result bool :=
  match xs with
  | [] => Ok false
  | x :: xs' => bind (f x) (fun b => if b then Ok true else any f xs')
  end.

End Py.

Import Py.

Notation "x <- c ;; k" := (Py.bind c (fun x => k))
  (at level 61, c at next level, right associativity).

(** ** The script *)

(** The [for] loop of [deltas] (lines 12-14). *)
Fixpoint deltas_loop (prev : Z) (levels : list Z) : list Z :=
  match levels with
  | [] => []
  | item :: levels' => (item - prev) :: deltas_loop item levels'
  end.

(** [deltas] (lines 7-14): [StopIteration] from [next] ends the generator
    with nothing yielded; no other exception is caught. *)
Definition deltas (levels : list Z) : result (list Z) :=
  match Py.next levels with
  | Ok (prev, levels') => Ok (deltas_loop prev levels')
  | Raise StopIteration => Ok []
  | Raise e => Raise e
  end.

(** Line 22: [1 if delta > 0 else -1]. *)
Definition newSgn_of (delta : Z) : Z := if delta >? 0 then 1 else -1.

(** The [for] loop of [is_safe] (lines 18-26), from the current [sgn]. *)
Fixpoint is_safe_loop (sgn : Z) (deltas : list Z) : bool :=
  match deltas with
  | [] => true
  | delta :: deltas' =>
      let absDelta := Z.abs delta in
      if (absDelta <? 1) || (absDelta >? 3) then false
      else
        let newSgn := newSgn_of delta in
        if negb (sgn =? 0) && negb (newSgn =? sgn) then false
        else is_safe_loop newSgn deltas'
  end.

(** [is_safe] (lines 16-26). *)
Definition is_safe (deltas : list Z) : bool := is_safe_loop 0 deltas.

(** The same loop, recording every delta on which line 22 is executed
    together with the sign computed for it. *)
Fixpoint sign_trace_loop (sgn : Z) (deltas : list Z) : list (Z * Z) :=
  match deltas with
  | [] => []
  | delta :: deltas' =>
      let absDelta := Z.abs delta in
      if (absDelta <? 1) || (absDelta >? 3) then []
      else
        let newSgn := newSgn_of delta in
        (delta, newSgn) ::
        (if negb (sgn =? 0) && negb (newSgn =? sgn) then []
         else sign_trace_loop newSgn deltas')
  end.

Definition sign_trace (deltas : list Z) : list (Z * Z) := sign_trace_loop 0 deltas.

(** [dampened] (lines 28-29). *)
Definition dampened (levels : list Z) (index : Z) : result (list Z) :=
  Py.genexp (fun i => Py.getitem levels i)
            (fun i => negb (i =? index))
            (Py.range (length levels)).

(** [is_safe(deltas(iter(levels)))] (lines 32 and 36). *)
Definition safe_plain (levels : list Z) : result bool :=
  ds <- deltas levels ;; Ok (is_safe ds).

(** [is_safe(deltas(dampened(levels, i)))] (line 34). *)
Definition safe_without (levels : list Z) (i : Z) : result bool :=
  e <- dampened levels i ;;
  ds <- deltas e ;;
  Ok (is_safe ds).

(** [is_safe_with_dampening] (lines 31-34). *)
Definition is_safe_with_dampening (levels : list Z) : result bool :=
  b <- safe_plain levels ;;
  if b then Ok true
  else Py.any (safe_without levels) (Py.range (length levels)).

(** ** Vocabulary of the specification *)

(** The [k]-th adjacent difference of a sequence: next minus previous. *)
Definition adjacent_diff (s : list Z) (k : nat) : Z := nth (S k) s 0 - nth k s 0.

(** The rule as the specification words it: every adjacent difference has
    absolute value in [1,3], and all of them share the same sign. *)
Definition spec_safe (s : list Z) : Prop :=
  (forall k, (S k < length s)%nat -> 1 <= Z.abs (adjacent_diff s k) <= 3) /\
  (forall j k, (S j < length s)%nat -> (S k < length s)%nat ->
     Z.sgn (adjacent_diff s j) = Z.sgn (adjacent_diff s k)).

(** A sequence with the element at position [index] removed and the others
    kept in their order; unchanged when no element has that position. *)
Definition without (s : list Z) (index : Z) : list Z :=
  if (0 <=? index) && (index <? Z.of_nat (length s))
  then firstn (Z.to_nat index) s ++ skipn (S (Z.to_nat index)) s
  else s.

(** The candidates of the dampened check: the record itself ([None]) and
    the record without index [i] ([Some i]). *)
Definition safe_candidate (levels : list Z) (c : option Z) : result bool :=
  match c with
  | None => safe_plain levels
  | Some i => safe_without levels i
  end.

Definition candidates (levels : list Z) : list (option Z) :=
  None :: map Some (Py.range (length levels)).

(** Pure readings of the two generators, justified by [deltas_total] and
    [dampened_total] below. *)
Definition delta_list (levels : list Z) : list Z :=
  match levels with
  | [] => []
  | prev :: levels' => deltas_loop prev levels'
  end.

Definition increasing_step (d : Z) : Prop := 1 <= d <= 3.
Definition decreasing_step (d : Z) : Prop := -3 <= d <= -1.

(** The truth value of one candidate. *)
Definition candidate_value (levels : list Z) (c : option Z) : bool :=
  match c with
  | None => is_safe (delta_list levels)
  | Some i => is_safe (delta_list (without levels i))
  end.

(** The sequence handed to [deltas]: the record itself ([iter(levels)])
    or the record with one index excluded ([dampened(levels, i)]). *)
Definition effective (levels : list Z) (excluded : option Z) : result (list Z) :=
  match excluded with
  | None => Ok levels
  | Some i => dampened levels i
  end.

(** ** The tallies of the script *)

(** [(1 for x in xs if cond(x))], consumed to the end. *)
Fixpoint ones_where {A : Type} (cond : A -> result bool) (xs : list A)
  : result (list Z) :=
  match xs with
  | [] => Ok []
  | x :: xs' =>
      b <- cond x ;;
      ones <- ones_where cond xs' ;;
      Ok (if b then 1 :: ones else ones)
  end.

(** [sum(it)]: the values added, left to right, to the start value 0. *)
Definition py_sum (xs : list Z) : Z := fold_left Z.add xs 0.

(** The number printed on line 36. *)
Definition part1 (records : list (list Z)) : result Z :=
  ones <- ones_where safe_plain records ;; Ok (py_sum ones).

(** The number printed on line 37. *)
Definition part2 (records : list (list Z)) : result Z :=
  ones <- ones_where is_safe_with_dampening records ;; Ok (py_sum ones).

(** The output of the script on the parsed records: line 36, then line 37. *)
Definition report (records : list (list Z)) : result (list Z) :=
  a <- part1 records ;;
  b <- part2 records ;;
  Ok [a; b].

(** The truth values of the two checks. *)
Definition plain_value (levels : list Z) : bool := is_safe (delta_list levels).

Definition dampened_value (levels : list Z) : bool :=
  existsb (candidate_value levels) (candidates levels).

(** Every adjacent difference of a sequence satisfies [P]. *)
Definition all_steps (P : Z -> Prop) (s : list Z) : Prop :=
  forall k, (S k < length s)%nat -> P (adjacent_diff s k).

(** A record shifted by a constant. *)
Definition shifted (c : Z) (levels : list Z) : list Z := map (fun x => x + c) levels.

(** The deltas once position [i] is dropped: those before [i - 1], the sum
    of the two around [i] when [i] is interior, and those after [i]. *)
Definition merged_deltas (ds : list Z) (i : nat) : list Z :=
  firstn (i - 1) ds
  ++ (if (0 <? i)%nat && (S i <=? length ds)%nat
      then [nth (i - 1) ds 0 + nth i ds 0] else [])
  ++ skipn (S i) ds.

(** A candidate as the specification words it: the plain check run on the
    record itself ([None]) or on the record without index [i] ([Some i]). *)
Definition omission_candidate (levels : list Z) (c : option Z) : result bool :=
  match c with
  | None => safe_plain levels
  | Some i => safe_plain (without levels i)
  end.

(** ** The generators never raise *)

Section Totality.

Lemma deltas_total (levels : list Z) : deltas levels = Ok (delta_list levels).
Proof. destruct levels; reflexivity. Qed.

Lemma safe_plain_total (levels : list Z) :
  safe_plain levels = Ok (is_safe (delta_list levels)).
Proof. unfold safe_plain. rewrite deltas_total. reflexivity. Qed.

Lemma getitem_in_range (l : list Z) (i : nat) :
  (i < length l)%nat -> Py.getitem l (Z.of_nat i) = Ok (nth i l 0).
Proof.
  intros Hi.
  assert (Hneg : (Z.of_nat i <? 0) = false) by (apply Z.ltb_ge; lia).
  assert (Hlen : (Z.of_nat (length l) <=? Z.of_nat i) = false)
    by (apply Z.leb_gt; lia).
  unfold Py.getitem. cbv zeta. rewrite Hneg. cbv iota.
  rewrite Hneg, Hlen. cbn [orb]. rewrite Nat2Z.id.
  destruct (nth_error l i) as [x|] eqn:E.
  - erewrite nth_error_nth by exact E. reflexivity.
  - apply nth_error_None in E. lia.
Qed.

(** The comprehension of [dampened] over the indices [a .. a+n-1]. *)
Lemma genexp_indices (l : list Z) (index : Z) (n a : nat) :
  (a + n <= length l)%nat ->
  Py.genexp (fun i => Py.getitem l i) (fun i => negb (i =? index))
            (map Z.of_nat (seq a n))
  = Ok (map (fun i => nth i l 0)
            (filter (fun i => negb (Z.of_nat i =? index)) (seq a n))).
Proof.
  revert a. induction n as [|n IH]; intros a Ha; [reflexivity|].
  cbn [seq map Py.genexp filter].
  rewrite IH by lia.
  destruct (negb (Z.of_nat a =? index)); [|reflexivity].
  rewrite getitem_in_range by lia. reflexivity.
Qed.

End Totality.

(** ** What [dampened] yields *)

Section Dampened.

Lemma without_nil (index : Z) : without [] index = [].
Proof.
  unfold without. destruct (_ && _); [|reflexivity].
  rewrite firstn_nil, skipn_nil. reflexivity.
Qed.

Lemma without_cons_head (x : Z) (s : list Z) : without (x :: s) 0 = s.
Proof.
  unfold without. cbn [length].
  destruct (Z.ltb_spec 0 (Z.of_nat (S (length s)))) as [_|?]; [|lia].
  reflexivity.
Qed.

Lemma without_cons_tail (x : Z) (s : list Z) (index : Z) :
  index <> 0 -> without (x :: s) index = x :: without s (index - 1).
Proof.
  intros Hne. unfold without. cbn [length].
  destruct (Z.leb_spec 0 index) as [H0|H0];
    destruct (Z.ltb_spec index (Z.of_nat (S (length s)))) as [H1|H1];
    destruct (Z.leb_spec 0 (index - 1)) as [H2|H2];
    destruct (Z.ltb_spec (index - 1) (Z.of_nat (length s))) as [H3|H3];
    cbn [andb]; try reflexivity; try lia.
  replace (Z.to_nat index) with (S (Z.to_nat (index - 1))) by lia.
  reflexivity.
Qed.

Lemma without_out_of_range (s : list Z) (index : Z) :
  index < 0 \/ Z.of_nat (length s) <= index -> without s index = s.
Proof.
  intros H. unfold without.
  destruct (Z.leb_spec 0 index); destruct (Z.ltb_spec index (Z.of_nat (length s)));
    cbn [andb]; try reflexivity; lia.
Qed.

Lemma filter_map_S (p : nat -> bool) (xs : list nat) :
  filter p (map S xs) = map S (filter (fun i => p (S i)) xs).
Proof.
  induction xs as [|i xs IH]; [reflexivity|].
  cbn [map filter]. rewrite IH. destruct (p (S i)); reflexivity.
Qed.

(** The positions other than [index], read off the record, are the record
    without that position. *)
Lemma kept_positions (l : list Z) : forall index : Z,
  map (fun i => nth i l 0)
      (filter (fun i => negb (Z.of_nat i =? index)) (seq 0 (length l)))
  = without l index.
Proof.
  induction l as [|x l IH]; intros index.
  - rewrite without_nil. reflexivity.
  - cbn [length seq]. rewrite <- seq_shift. cbn [filter].
    rewrite filter_map_S.
    assert (Hshift :
      filter (fun i => negb (Z.of_nat (S i) =? index)) (seq 0 (length l))
      = filter (fun i => negb (Z.of_nat i =? index - 1)) (seq 0 (length l))).
    { apply filter_ext. intros i. f_equal.
      destruct (Z.eqb_spec (Z.of_nat (S i)) index);
        destruct (Z.eqb_spec (Z.of_nat i) (index - 1)); try reflexivity; lia. }
    rewrite Hshift.
    destruct (Z.eqb_spec (Z.of_nat 0) index) as [E|E]; cbn [negb map].
    + rewrite map_map. cbn [nth]. rewrite IH. rewrite <- E.
      rewrite without_cons_head. apply without_out_of_range. lia.
    + rewrite map_map. cbn [nth]. rewrite IH.
      rewrite without_cons_tail by (cbn in E; lia). reflexivity.
Qed.

Lemma dampened_total (levels : list Z) (index : Z) :
  dampened levels index = Ok (without levels index).
Proof.
  unfold dampened, Py.range.
  rewrite genexp_indices by lia. rewrite kept_positions. reflexivity.
Qed.

Lemma safe_without_total (levels : list Z) (i : Z) :
  safe_without levels i = Ok (is_safe (delta_list (without levels i))).
Proof.
  unfold safe_without. rewrite dampened_total. cbn [Py.bind].
  rewrite deltas_total. reflexivity.
Qed.

Lemma without_length (s : list Z) (index : Z) :
  0 <= index < Z.of_nat (length s) -> length (without s index) = (length s - 1)%nat.
Proof.
  intros H. unfold without.
  destruct (Z.leb_spec 0 index); destruct (Z.ltb_spec index (Z.of_nat (length s)));
    try lia.
  cbn [andb]. rewrite length_app, length_firstn, length_skipn. lia.
Qed.

End Dampened.

(** ** What [is_safe] accepts *)

Section Checker.

Ltac zcases :=
  repeat match goal with
    | |- context [?a >? ?b] => rewrite (Z.gtb_ltb a b)
    | |- context [?a <? ?b] => destruct (Z.ltb_spec a b)
    | |- context [?a =? ?b] => destruct (Z.eqb_spec a b)
    end.

(** One iteration of the loop, from an undetermined, an increasing and a
    decreasing current sign. *)
Lemma is_safe_loop_cons (sgn d : Z) (ds : list Z) :
  sgn = 0 \/ sgn = 1 \/ sgn = -1 ->
  is_safe_loop sgn (d :: ds) = true <->
  (increasing_step d /\ sgn <> -1 /\ is_safe_loop 1 ds = true) \/
  (decreasing_step d /\ sgn <> 1 /\ is_safe_loop (-1) ds = true).
Proof.
  intros Hs. cbn [is_safe_loop]. unfold newSgn_of, increasing_step, decreasing_step.
  zcases; cbn [orb andb negb]; split; intros Hyp;
    try discriminate; try (left; split; [lia|split; [lia|exact Hyp]]);
    try (right; split; [lia|split; [lia|exact Hyp]]);
    try (destruct Hyp as [(?&?&?)|(?&?&?)]; (assumption || lia)).
Qed.

Lemma is_safe_loop_increasing (ds : list Z) :
  is_safe_loop 1 ds = true <-> Forall increasing_step ds.
Proof.
  induction ds as [|d ds IH].
  - split; [constructor|reflexivity].
  - rewrite is_safe_loop_cons by lia. rewrite Forall_cons_iff, <- IH.
    intuition lia.
Qed.

Lemma is_safe_loop_decreasing (ds : list Z) :
  is_safe_loop (-1) ds = true <-> Forall decreasing_step ds.
Proof.
  induction ds as [|d ds IH].
  - split; [constructor|reflexivity].
  - rewrite is_safe_loop_cons by lia. rewrite Forall_cons_iff, <- IH.
    intuition lia.
Qed.

Lemma is_safe_iff (ds : list Z) :
  is_safe ds = true <-> Forall increasing_step ds \/ Forall decreasing_step ds.
Proof.
  unfold is_safe. destruct ds as [|d ds].
  - split; [left; constructor|reflexivity].
  - rewrite is_safe_loop_cons by lia.
    rewrite is_safe_loop_increasing, is_safe_loop_decreasing, !Forall_cons_iff.
    intuition lia.
Qed.

(** The instrumented loop decides nothing: it follows [is_safe_loop]. *)
Lemma sign_trace_loop_nonzero (ds : list Z) : forall sgn d s,
  In (d, s) (sign_trace_loop sgn ds) -> d <> 0 /\ s = newSgn_of d /\ In d ds.
Proof.
  induction ds as [|delta ds IH]; intros sgn d s; cbn [sign_trace_loop].
  - intros [].
  - destruct (Z.ltb_spec (Z.abs delta) 1) as [Hlt|Hge]; cbn [orb]; [intros []|].
    destruct (Z.abs delta >? 3); [intros []|].
    intros [E|Hin].
    + inversion E; subst. split; [lia|split; [reflexivity|left; reflexivity]].
    + destruct (negb (sgn =? 0) && negb (newSgn_of delta =? sgn)); [destruct Hin|].
      apply IH in Hin. destruct Hin as (?&?&?). auto with datatypes.
Qed.

End Checker.

(** ** What [deltas] yields *)

Section Deltas.

Lemma deltas_loop_length (l : list Z) : forall prev,
  length (deltas_loop prev l) = length l.
Proof. induction l as [|x l IH]; intros prev; cbn; [|rewrite IH]; reflexivity. Qed.

Lemma deltas_loop_nth (l : list Z) : forall prev k,
  (k < length l)%nat ->
  nth k (deltas_loop prev l) 0 = adjacent_diff (prev :: l) k.
Proof.
  induction l as [|x l IH]; intros prev k Hk; cbn [length] in Hk; [lia|].
  destruct k as [|k]; [reflexivity|].
  cbn [deltas_loop nth]. rewrite IH by lia. reflexivity.
Qed.

Lemma delta_list_length (s : list Z) : length (delta_list s) = (length s - 1)%nat.
Proof.
  destruct s as [|x s]; [reflexivity|].
  cbn [delta_list length]. rewrite deltas_loop_length. lia.
Qed.

Lemma delta_list_nth (s : list Z) (k : nat) :
  (S k < length s)%nat -> nth k (delta_list s) 0 = adjacent_diff s k.
Proof.
  destruct s as [|x s]; cbn [length]; intros Hk; [lia|].
  apply deltas_loop_nth. lia.
Qed.

Lemma Forall_delta_list (P : Z -> Prop) (s : list Z) :
  Forall P (delta_list s) <->
  forall k, (S k < length s)%nat -> P (adjacent_diff s k).
Proof.
  rewrite (Forall_nth P (delta_list s)). rewrite delta_list_length. split.
  - intros H k Hk. rewrite <- delta_list_nth by exact Hk. apply H. lia.
  - intros H k d Hk. rewrite (nth_indep _ d 0) by (rewrite delta_list_length; lia).
    rewrite delta_list_nth by lia. apply H. lia.
Qed.

(** The rule of the specification, split by direction. *)
Lemma spec_safe_iff (s : list Z) :
  spec_safe s <->
  (forall k, (S k < length s)%nat -> increasing_step (adjacent_diff s k)) \/
  (forall k, (S k < length s)%nat -> decreasing_step (adjacent_diff s k)).
Proof.
  unfold spec_safe, increasing_step, decreasing_step. split.
  - intros [Habs Hsgn].
    destruct (Nat.lt_ge_cases 1 (length s)) as [Hlen|Hlen].
    + destruct (Z.lt_ge_cases 0 (adjacent_diff s 0)) as [Hpos|Hneg].
      * left. intros k Hk.
        specialize (Habs k Hk). specialize (Hsgn 0%nat k Hlen Hk). lia.
      * right. intros k Hk.
        pose proof (Habs 0%nat Hlen). pose proof (Habs k Hk).
        specialize (Hsgn 0%nat k Hlen Hk). lia.
    + left. intros k Hk. lia.
  - intros [H|H]; split.
    + intros k Hk. specialize (H k Hk). lia.
    + intros j k Hj Hk. pose proof (H j Hj). pose proof (H k Hk). lia.
    + intros k Hk. specialize (H k Hk). lia.
    + intros j k Hj Hk. pose proof (H j Hj). pose proof (H k Hk). lia.
Qed.

Lemma is_safe_delta_list (s : list Z) :
  is_safe (delta_list s) = true <-> spec_safe s.
Proof.
  rewrite is_safe_iff, spec_safe_iff, !Forall_delta_list. reflexivity.
Qed.

End Deltas.

(** ** The dampened check as a disjunction *)

Section Dampening.

Lemma any_total {A : Type} (f : A -> result bool) (g : A -> bool) (xs : list A) :
  (forall x, f x = Ok (g x)) -> Py.any f xs = Ok (existsb g xs).
Proof.
  intros Hf. induction xs as [|x xs IH]; [reflexivity|].
  cbn [Py.any existsb]. rewrite Hf. cbn [Py.bind].
  destruct (g x); [reflexivity|exact IH].
Qed.

Lemma range_In (n : nat) (i : Z) :
  In i (Py.range n) <-> 0 <= i <= Z.of_nat n - 1.
Proof.
  unfold Py.range. rewrite in_map_iff. split.
  - intros (k & <- & Hk). apply in_seq in Hk. lia.
  - intros Hi. exists (Z.to_nat i). split; [lia|]. apply in_seq. lia.
Qed.

Lemma safe_candidate_total (levels : list Z) (c : option Z) :
  safe_candidate levels c = Ok (candidate_value levels c).
Proof.
  destruct c as [i|]; [apply safe_without_total|apply safe_plain_total].
Qed.

Lemma is_safe_with_dampening_candidates (levels : list Z) :
  is_safe_with_dampening levels = Py.any (safe_candidate levels) (candidates levels).
Proof.
  unfold is_safe_with_dampening, candidates. cbn [Py.any safe_candidate].
  destruct (safe_plain levels) as [[|]|e]; cbn [Py.bind]; try reflexivity.
  generalize (Py.range (length levels)). intros idxs.
  induction idxs as [|i idxs IH]; [reflexivity|].
  cbn [map Py.any safe_candidate]. rewrite IH. reflexivity.
Qed.

Lemma is_safe_with_dampening_total (levels : list Z) :
  is_safe_with_dampening levels
  = Ok (existsb (candidate_value levels) (candidates levels)).
Proof.
  rewrite is_safe_with_dampening_candidates.
  apply any_total, safe_candidate_total.
Qed.

Lemma existsb_Permutation {A : Type} (g : A -> bool) (xs ys : list A) :
  Permutation xs ys -> existsb g xs = existsb g ys.
Proof.
  intros HP. induction HP as [|x xs ys _ IH|x y xs|xs ys zs _ IH1 _ IH2].
  - reflexivity.
  - cbn [existsb]. rewrite IH. reflexivity.
  - cbn [existsb]. destruct (g x), (g y); reflexivity.
  - rewrite IH1. exact IH2.
Qed.

Lemma existsb_candidates (levels : list Z) :
  existsb (candidate_value levels) (candidates levels) = true <->
  is_safe (delta_list levels) = true \/
  exists i, 0 <= i <= Z.of_nat (length levels) - 1 /\
            is_safe (delta_list (without levels i)) = true.
Proof.
  unfold candidates. cbn [existsb candidate_value].
  rewrite orb_true_iff, existsb_exists. split.
  - intros [H|(c & Hc & Hv)]; [left; exact H|right].
    apply in_map_iff in Hc. destruct Hc as (i & <- & Hi).
    exists i. split; [apply range_In, Hi|exact Hv].
  - intros [H|(i & Hi & Hv)]; [left; exact H|right].
    exists (Some i). split; [|exact Hv].
    apply in_map, range_In, Hi.
Qed.

End Dampening.

Lemma Ok_inj {A : Type} (a b : A) : @Ok A a = Ok b <-> a = b.
Proof. split; [intros H; inversion H; reflexivity|intros ->; reflexivity]. Qed.

(** ** Auxiliary facts: traces and reversal *)

(** On an accepted sequence every delta reaches the sign computation. *)
Lemma sign_trace_loop_accepted (ds : list Z) : forall sgn,
  is_safe_loop sgn ds = true -> map fst (sign_trace_loop sgn ds) = ds.
Proof.
  induction ds as [|delta ds IH]; intros sgn; cbn [is_safe_loop sign_trace_loop].
  - reflexivity.
  - destruct ((Z.abs delta <? 1) || (Z.abs delta >? 3)); [discriminate|].
    destruct (negb (sgn =? 0) && negb (newSgn_of delta =? sgn)); [discriminate|].
    intros Hrest. cbn [map fst]. rewrite (IH _ Hrest). reflexivity.
Qed.

Lemma adjacent_diff_rev (r : list Z) (k : nat) :
  (S k < length r)%nat ->
  adjacent_diff (rev r) k = - adjacent_diff r (length r - 2 - k).
Proof.
  intros Hk. unfold adjacent_diff. rewrite !rev_nth by lia.
  replace (S (length r - 2 - k)) with (length r - S k)%nat by lia.
  replace (length r - 2 - k)%nat with (length r - S (S k))%nat by lia.
  lia.
Qed.

Lemma delta_list_short (r : list Z) : (length r <= 1)%nat -> delta_list r = [].
Proof.
  destruct r as [|x [|y r]]; cbn [length]; intros H; try reflexivity; lia.
Qed.

Lemma without_short (r : list Z) (i : Z) :
  (length r <= 2)%nat -> 0 <= i < Z.of_nat (length r) ->
  delta_list (without r i) = [].
Proof.
  intros Hlen Hi. apply delta_list_short.
  rewrite without_length by exact Hi. lia.
Qed.

(** With an index of the record excluded, one delta fewer than for the
    record itself is yielded. *)
Lemma delta_list_without_length (r : list Z) (i : Z) :
  0 <= i < Z.of_nat (length r) ->
  length (delta_list (without r i)) = (length r - 2)%nat.
Proof.
  intros Hi. rewrite delta_list_length, without_length by exact Hi. lia.
Qed.

(** ** Properties of the specification *)

(** C1: for every sequence [s], [is_safe(deltas(s))] returns a boolean, and
    it is true if and only if every adjacent difference of [s] has absolute
    value in [1,3] and all the differences share the same sign. *)
Theorem is_safe_deltas_spec (s : list Z) :
  exists b, safe_plain s = Ok b /\ (b = true <-> spec_safe s).
Proof.
  exists (is_safe (delta_list s)). split.
  - apply safe_plain_total.
  - apply is_safe_delta_list.
Qed.

(** C2: for every record [r], [is_safe_with_dampening(r)] returns a boolean,
    true if and only if [is_safe] holds of the deltas of the full record or
    of the deltas of [r] with some index [i], [0 <= i <= len(r)-1],
    excluded, that is of [r] with the element at position [i] removed and
    the others kept in order; checking the candidates (the record and each
    single omission) in any other order gives the same result. *)
Theorem is_safe_with_dampening_disjunction (r : list Z) :
  (exists b, is_safe_with_dampening r = Ok b /\
     (b = true <->
      safe_plain r = Ok true \/
      exists i, 0 <= i <= Z.of_nat (length r) - 1 /\
                safe_plain (without r i) = Ok true)) /\
  (forall order, Permutation order (candidates r) ->
     Py.any (omission_candidate r) order = is_safe_with_dampening r) /\
  (forall order, Permutation order (candidates r) ->
     Py.any (safe_candidate r) order = is_safe_with_dampening r).
Proof.
  split; [|split].
  - exists (existsb (candidate_value r) (candidates r)). split.
    + apply is_safe_with_dampening_total.
    + rewrite existsb_candidates, safe_plain_total, Ok_inj.
      split; (intros [H|(i & Hi & Hv)]; [left; exact H|right; exists i; split; [exact Hi|]]).
      * rewrite safe_plain_total, Ok_inj. exact Hv.
      * rewrite safe_plain_total, Ok_inj in Hv. exact Hv.
  - intros order HP. rewrite is_safe_with_dampening_total.
    rewrite (any_total _ (candidate_value r))
      by (intros [i|]; apply safe_plain_total).
    f_equal. apply existsb_Permutation, HP.
  - intros order HP. rewrite is_safe_with_dampening_total.
    rewrite (any_total _ (candidate_value r)) by apply safe_candidate_total.
    f_equal. apply existsb_Permutation, HP.
Qed.

(** C3: when the sequence handed to the Delta Sequence Producer (the record,
    or the record with one index excluded first) has length [n >= 2], the
    producer yields exactly [n-1] values, the [k]-th being next minus
    previous of the [k]-th adjacent pair of that sequence; with an index
    excluded, that sequence is the record without the element at the index,
    the others in their original relative order. *)
Theorem deltas_of_effective (r : list Z) (excluded : option Z) (e : list Z)
  (He : effective r excluded = Ok e) (Hn : (2 <= length e)%nat) :
  (exists ds, deltas e = Ok ds /\
     length ds = (length e - 1)%nat /\
     forall k, (k < length ds)%nat -> nth k ds 0 = nth (S k) e 0 - nth k e 0) /\
  e = match excluded with
      | None => r
      | Some i => without r i
      end.
Proof.
  split.
  - exists (delta_list e). split; [apply deltas_total|].
    split; [apply delta_list_length|].
    intros k Hk. rewrite delta_list_length in Hk.
    apply delta_list_nth. lia.
  - destruct excluded as [i|]; cbn [effective] in He.
    + rewrite dampened_total in He. injection He as He. symmetry. exact He.
    + injection He as He. symmetry. exact He.
Qed.

Lemma deltas_of_effective_witness :
  effective [1; 3; 2; 4; 5] (Some 1) = Ok [1; 2; 4; 5] /\
  (exists ds, deltas [1; 2; 4; 5] = Ok ds /\
     length ds = (length [1; 2; 4; 5] - 1)%nat /\
     forall k, (k < length ds)%nat ->
       nth k ds 0 = nth (S k) [1; 2; 4; 5] 0 - nth k [1; 2; 4; 5] 0) /\
  [1; 2; 4; 5] = without [1; 3; 2; 4; 5] 1.
Proof.
  split; [reflexivity|].
  apply (deltas_of_effective [1; 3; 2; 4; 5] (Some 1) [1; 2; 4; 5]).
  - reflexivity.
  - simpl. lia.
Defined.

(** C4: for every record [r], if [is_safe(deltas(r))] is true then
    [is_safe_with_dampening(r)] is true. *)
Theorem dampening_weakens (r : list Z) (H : safe_plain r = Ok true) :
  is_safe_with_dampening r = Ok true.
Proof. unfold is_safe_with_dampening. rewrite H. reflexivity. Qed.

Lemma dampening_weakens_witness :
  safe_plain [7; 6; 4; 2; 1] = Ok true /\
  is_safe_with_dampening [7; 6; 4; 2; 1] = Ok true.
Proof.
  split; [reflexivity|].
  apply (dampening_weakens [7; 6; 4; 2; 1]). reflexivity.
Defined.

(** C5: the six concrete scenarios, as (plain, dampened): [7,6,4,2,1] is
    (true, true), [1,2,7,8,9] (false, false), [9,7,6,2,1] (false, false),
    [1,3,2,4,5] (false, true), [8,6,4,4,1] (false, true) and [1,3,6,7,9]
    (true, true). *)
Theorem scenarios :
  (safe_plain [7; 6; 4; 2; 1], is_safe_with_dampening [7; 6; 4; 2; 1])
    = (Ok true, Ok true) /\
  (safe_plain [1; 2; 7; 8; 9], is_safe_with_dampening [1; 2; 7; 8; 9])
    = (Ok false, Ok false) /\
  (safe_plain [9; 7; 6; 2; 1], is_safe_with_dampening [9; 7; 6; 2; 1])
    = (Ok false, Ok false) /\
  (safe_plain [1; 3; 2; 4; 5], is_safe_with_dampening [1; 3; 2; 4; 5])
    = (Ok false, Ok true) /\
  (safe_plain [8; 6; 4; 4; 1], is_safe_with_dampening [8; 6; 4; 4; 1])
    = (Ok false, Ok true) /\
  (safe_plain [1; 3; 6; 7; 9], is_safe_with_dampening [1; 3; 6; 7; 9])
    = (Ok true, Ok true).
Proof. repeat split. Qed.

(** C6: for every delta sequence that contains a zero, [is_safe] returns
    false; no run of [is_safe] executes the sign computation of line 22 on
    a zero delta, which it would classify as decreasing ([-1]). *)
Theorem zero_delta_rejected (ds : list Z) (Hzero : In 0 ds) :
  is_safe ds = false /\
  (forall d s, In (d, s) (sign_trace ds) -> d <> 0) /\
  newSgn_of 0 = -1.
Proof.
  split; [|split; [|reflexivity]].
  - destruct (is_safe ds) eqn:E; [|reflexivity].
    apply is_safe_iff in E. rewrite !Forall_forall in E.
    destruct E as [E|E]; specialize (E 0 Hzero);
      unfold increasing_step, decreasing_step in E; lia.
  - intros d s Hin. apply sign_trace_loop_nonzero in Hin. tauto.
Qed.

Lemma zero_delta_rejected_witness :
  In 0 [-2; -2; 0; -3] /\
  is_safe [-2; -2; 0; -3] = false /\
  (forall d s, In (d, s) (sign_trace [-2; -2; 0; -3]) -> d <> 0) /\
  newSgn_of 0 = -1.
Proof.
  split; [simpl; tauto|].
  apply (zero_delta_rejected [-2; -2; 0; -3]). simpl. tauto.
Defined.

(** C7: for every record of length 0 or 1, [deltas] yields the empty
    sequence and raises nothing, and [is_safe] of the empty sequence is
    true. *)
Theorem short_record_safe (r : list Z) (Hlen : (length r <= 1)%nat) :
  deltas r = Ok [] /\ is_safe [] = true /\ safe_plain r = Ok true.
Proof.
  rewrite safe_plain_total, deltas_total, delta_list_short by exact Hlen.
  repeat split.
Qed.

Lemma short_record_safe_witness :
  (length [5] <= 1)%nat /\
  deltas [5] = Ok [] /\ is_safe [] = true /\ safe_plain [5] = Ok true.
Proof.
  split; [simpl; lia|].
  apply (short_record_safe [5]). simpl. lia.
Defined.

(** C8: for every record that is strictly increasing with each step in
    [1,3], [is_safe] of its deltas is true, and so is [is_safe] of the
    deltas of its reverse, which is strictly decreasing with the same step
    magnitudes. *)
Theorem reversal_symmetry (r : list Z)
  (Hinc : forall k, (S k < length r)%nat -> 1 <= adjacent_diff r k <= 3) :
  safe_plain r = Ok true /\
  safe_plain (rev r) = Ok true /\
  (forall k, (S k < length (rev r))%nat ->
     -3 <= adjacent_diff (rev r) k <= -1 /\
     adjacent_diff (rev r) k = - adjacent_diff r (length r - 2 - k)).
Proof.
  assert (Hrev : forall k, (S k < length (rev r))%nat ->
            -3 <= adjacent_diff (rev r) k <= -1 /\
            adjacent_diff (rev r) k = - adjacent_diff r (length r - 2 - k)).
  { intros k Hk. rewrite length_rev in Hk.
    rewrite adjacent_diff_rev by exact Hk.
    specialize (Hinc (length r - 2 - k)%nat). lia. }
  rewrite !safe_plain_total. repeat split; try apply Hrev; try assumption.
  - f_equal. apply is_safe_iff. left. apply Forall_delta_list. exact Hinc.
  - f_equal. apply is_safe_iff. right. apply Forall_delta_list.
    intros k Hk. apply Hrev, Hk.
Qed.

Lemma reversal_symmetry_witness :
  safe_plain [1; 3; 6; 7; 9] = Ok true /\
  safe_plain (rev [1; 3; 6; 7; 9]) = Ok true /\
  (forall k, (S k < length (rev [1; 3; 6; 7; 9]))%nat ->
     -3 <= adjacent_diff (rev [1; 3; 6; 7; 9]) k <= -1 /\
     adjacent_diff (rev [1; 3; 6; 7; 9]) k
     = - adjacent_diff [1; 3; 6; 7; 9] (length [1; 3; 6; 7; 9] - 2 - k)).
Proof.
  apply (reversal_symmetry [1; 3; 6; 7; 9]).
  intros k Hk. simpl in Hk.
  destruct k as [|[|[|[|k]]]]; cbn; lia.
Defined.

(** C9: for every record of length at most 2, [is_safe_with_dampening]
    returns true, whatever [is_safe] says of the full record (it fails on
    [4,4]): excluding any one index leaves at most one element, whose delta
    sequence is empty and hence safe. *)
Theorem short_record_dampened (r : list Z) (Hlen : (length r <= 2)%nat) :
  is_safe_with_dampening r = Ok true /\
  (forall i, 0 <= i <= Z.of_nat (length r) - 1 ->
     exists e, dampened r i = Ok e /\ (length e <= 1)%nat /\
               deltas e = Ok [] /\ safe_without r i = Ok true) /\
  safe_plain [4; 4] = Ok false.
Proof.
  split; [|split; [|reflexivity]].
  - destruct r as [|x [|y [|z r]]]; cbn [length] in Hlen; try lia.
    + reflexivity.
    + reflexivity.
    + unfold is_safe_with_dampening.
      destruct (safe_plain [x; y]) as [[|]|e] eqn:E; cbn [Py.bind].
      * reflexivity.
      * cbn [length Py.range seq map Py.any].
        rewrite safe_without_total, without_cons_head. reflexivity.
      * rewrite safe_plain_total in E. discriminate.
  - intros i Hi. exists (without r i).
    rewrite dampened_total, deltas_total, safe_without_total.
    rewrite without_short by (exact Hlen || lia).
    rewrite without_length by lia.
    repeat split. lia.
Qed.

Lemma short_record_dampened_witness :
  (length [4; 4] <= 2)%nat /\
  is_safe_with_dampening [4; 4] = Ok true /\
  (forall i, 0 <= i <= Z.of_nat (length [4; 4]) - 1 ->
     exists e, dampened [4; 4] i = Ok e /\ (length e <= 1)%nat /\
               deltas e = Ok [] /\ safe_without [4; 4] i = Ok true) /\
  safe_plain [4; 4] = Ok false.
Proof.
  split; [simpl; lia|].
  apply (short_record_dampened [4; 4]). simpl. lia.
Defined.

(** C10: for every record [r] and every index outside [0, len(r)-1],
    [dampened(r, index)] yields exactly the original sequence, so [is_safe]
    of its deltas equals [is_safe] of the full record's deltas. *)
Theorem dampened_out_of_range (r : list Z) (index : Z)
  (Hout : index < 0 \/ Z.of_nat (length r) - 1 < index) :
  dampened r index = Ok r /\ safe_without r index = safe_plain r.
Proof.
  assert (E : dampened r index = Ok r).
  { rewrite dampened_total, without_out_of_range by lia. reflexivity. }
  split; [exact E|].
  unfold safe_without, safe_plain. rewrite E. reflexivity.
Qed.

Lemma dampened_out_of_range_witness :
  (-1 < 0 \/ Z.of_nat (length [8; 6; 4; 4; 1]) - 1 < -1) /\
  dampened [8; 6; 4; 4; 1] (-1) = Ok [8; 6; 4; 4; 1] /\
  safe_without [8; 6; 4; 4; 1] (-1) = safe_plain [8; 6; 4; 4; 1].
Proof.
  split; [left; lia|].
  apply (dampened_out_of_range [8; 6; 4; 4; 1] (-1)). left. lia.
Defined.

(** ** Further properties: the tallies *)

Section Tallies.

Lemma ones_where_total {A : Type} (cond : A -> result bool) (g : A -> bool)
  (xs : list A) :
  (forall x, cond x = Ok (g x)) ->
  ones_where cond xs = Ok (map (fun _ => 1) (filter g xs)).
Proof.
  intros Hc. induction xs as [|x xs IH]; [reflexivity|].
  cbn [ones_where filter]. rewrite Hc, IH. cbn [Py.bind].
  destruct (g x); reflexivity.
Qed.

Lemma fold_add_ones {A : Type} (xs : list A) : forall acc,
  fold_left Z.add (map (fun _ => 1) xs) acc = acc + Z.of_nat (length xs).
Proof.
  induction xs as [|x xs IH]; intros acc; cbn [map fold_left length].
  - lia.
  - rewrite IH. lia.
Qed.

Lemma py_sum_ones {A : Type} (xs : list A) :
  py_sum (map (fun _ => 1) xs) = Z.of_nat (length xs).
Proof. unfold py_sum. rewrite fold_add_ones. lia. Qed.

Lemma part1_total (records : list (list Z)) :
  part1 records = Ok (Z.of_nat (length (filter plain_value records))).
Proof.
  unfold part1.
  rewrite (ones_where_total _ plain_value) by (intros r; apply safe_plain_total).
  cbn [Py.bind]. rewrite py_sum_ones. reflexivity.
Qed.

Lemma part2_total (records : list (list Z)) :
  part2 records = Ok (Z.of_nat (length (filter dampened_value records))).
Proof.
  unfold part2.
  rewrite (ones_where_total _ dampened_value)
    by (intros r; apply is_safe_with_dampening_total).
  cbn [Py.bind]. rewrite py_sum_ones. reflexivity.
Qed.

Lemma report_total (records : list (list Z)) :
  report records = Ok [Z.of_nat (length (filter plain_value records));
                       Z.of_nat (length (filter dampened_value records))].
Proof. unfold report. rewrite part1_total, part2_total. reflexivity. Qed.

Lemma plain_le_dampened (r : list Z) :
  plain_value r = true -> dampened_value r = true.
Proof.
  intros H. unfold dampened_value, candidates. cbn [existsb candidate_value].
  fold (plain_value r). rewrite H. reflexivity.
Qed.

Lemma filter_length_mono {A : Type} (f g : A -> bool) (xs : list A) :
  (forall x, f x = true -> g x = true) ->
  (length (filter f xs) <= length (filter g xs))%nat.
Proof.
  intros Hfg. induction xs as [|x xs IH]; [reflexivity|].
  cbn [filter]. destruct (f x) eqn:E.
  - rewrite (Hfg _ E). cbn [length]. lia.
  - destruct (g x); cbn [length]; lia.
Qed.

Lemma filter_length_Permutation {A : Type} (f : A -> bool) (xs ys : list A) :
  Permutation xs ys -> length (filter f xs) = length (filter f ys).
Proof.
  intros HP. induction HP as [|x xs ys _ IH|x y xs|xs ys zs _ IH1 _ IH2].
  - reflexivity.
  - cbn [filter]. destruct (f x); cbn [length]; rewrite IH; reflexivity.
  - cbn [filter]. destruct (f x), (f y); reflexivity.
  - rewrite IH1. exact IH2.
Qed.

End Tallies.

(** X1: on any parsed records the script raises nothing and prints two
    numbers [a] and [b] with [0 <= a <= b <= len(records)]. *)
Theorem report_bounds (records : list (list Z)) :
  exists a b, report records = Ok [a; b] /\
              0 <= a /\ a <= b /\ b <= Z.of_nat (length records).
Proof.
  eexists. eexists. split; [apply report_total|].
  pose proof (filter_length_mono plain_value dampened_value records
                plain_le_dampened).
  pose proof (filter_length_le dampened_value records).
  lia.
Qed.

(** X2: the tallies of two batches of records add up: the numbers printed
    for [rs1 ++ rs2] are the sums of those printed for [rs1] and [rs2]. *)
Theorem report_app (rs1 rs2 : list (list Z)) :
  exists a1 b1 a2 b2,
    report rs1 = Ok [a1; b1] /\ report rs2 = Ok [a2; b2] /\
    report (rs1 ++ rs2) = Ok [a1 + a2; b1 + b2].
Proof.
  do 4 eexists. rewrite !report_total. split; [reflexivity|split; [reflexivity|]].
  rewrite !filter_app, !length_app, !Nat2Z.inj_add. reflexivity.
Qed.

(** X3: the printed numbers do not depend on the order of the records. *)
Theorem report_Permutation (rs rs' : list (list Z)) (HP : Permutation rs rs') :
  report rs = report rs'.
Proof.
  rewrite !report_total.
  rewrite (filter_length_Permutation plain_value rs rs' HP).
  rewrite (filter_length_Permutation dampened_value rs rs' HP).
  reflexivity.
Qed.

Lemma report_Permutation_witness :
  report [[7; 6; 4; 2; 1]; [1; 3; 2; 4; 5]] = report [[1; 3; 2; 4; 5]; [7; 6; 4; 2; 1]].
Proof.
  apply (report_Permutation [[7; 6; 4; 2; 1]; [1; 3; 2; 4; 5]]
                            [[1; 3; 2; 4; 5]; [7; 6; 4; 2; 1]]).
  apply perm_swap.
Defined.

(** ** Further properties: symmetries of the two checks *)

Section CheckerSymmetry.

Lemma Forall_opp_steps (ds : list Z) :
  (Forall increasing_step (map Z.opp ds) <-> Forall decreasing_step ds) /\
  (Forall decreasing_step (map Z.opp ds) <-> Forall increasing_step ds).
Proof.
  rewrite !Forall_map. unfold increasing_step, decreasing_step.
  split; split; apply Forall_impl; intros d; lia.
Qed.

Lemma Forall_rev_iff {A : Type} (P : A -> Prop) (l : list A) :
  Forall P (rev l) <-> Forall P l.
Proof.
  split; intros H.
  - rewrite <- (rev_involutive l). apply Forall_rev, H.
  - apply Forall_rev, H.
Qed.

Lemma is_safe_opp (ds : list Z) : is_safe (map Z.opp ds) = is_safe ds.
Proof.
  apply eq_true_iff_eq. rewrite !is_safe_iff.
  destruct (Forall_opp_steps ds) as [-> ->]. tauto.
Qed.

Lemma is_safe_rev (ds : list Z) : is_safe (rev ds) = is_safe ds.
Proof.
  apply eq_true_iff_eq. rewrite !is_safe_iff, !Forall_rev_iff. reflexivity.
Qed.

Lemma is_safe_app (ds1 ds2 : list Z) :
  is_safe (ds1 ++ ds2) = true -> is_safe ds1 = true /\ is_safe ds2 = true.
Proof.
  rewrite !is_safe_iff, !Forall_app. tauto.
Qed.

End CheckerSymmetry.

Section DeltaSymmetry.

Lemma deltas_loop_shifted (c : Z) (l : list Z) : forall prev,
  deltas_loop (prev + c) (shifted c l) = deltas_loop prev l.
Proof.
  induction l as [|x l IH]; intros prev; [reflexivity|].
  cbn [shifted map deltas_loop]. fold (shifted c l). rewrite IH.
  f_equal. lia.
Qed.

Lemma delta_list_shifted (c : Z) (r : list Z) :
  delta_list (shifted c r) = delta_list r.
Proof. destruct r as [|x r]; [reflexivity|apply deltas_loop_shifted]. Qed.

Lemma deltas_loop_opp (l : list Z) : forall prev,
  deltas_loop (- prev) (map Z.opp l) = map Z.opp (deltas_loop prev l).
Proof.
  induction l as [|x l IH]; intros prev; [reflexivity|].
  cbn [map deltas_loop]. rewrite IH. f_equal. lia.
Qed.

Lemma delta_list_opp (r : list Z) :
  delta_list (map Z.opp r) = map Z.opp (delta_list r).
Proof. destruct r as [|x r]; [reflexivity|apply deltas_loop_opp]. Qed.

Lemma delta_list_rev (r : list Z) :
  delta_list (rev r) = map Z.opp (rev (delta_list r)).
Proof.
  apply (nth_ext _ _ 0 0).
  - rewrite length_map, length_rev, !delta_list_length, length_rev. reflexivity.
  - intros k Hk. rewrite delta_list_length, length_rev in Hk.
    rewrite delta_list_nth by (rewrite length_rev; lia).
    rewrite adjacent_diff_rev by lia.
    change (nth k (map Z.opp (rev (delta_list r))) 0)
      with (nth k (map Z.opp (rev (delta_list r))) (Z.opp 0)).
    rewrite map_nth. f_equal.
    rewrite rev_nth by (rewrite delta_list_length; lia).
    rewrite delta_list_length.
    rewrite delta_list_nth by lia. f_equal. lia.
Qed.

Lemma plain_value_shifted (c : Z) (r : list Z) :
  plain_value (shifted c r) = plain_value r.
Proof. unfold plain_value. rewrite delta_list_shifted. reflexivity. Qed.

Lemma plain_value_opp (r : list Z) : plain_value (map Z.opp r) = plain_value r.
Proof. unfold plain_value. rewrite delta_list_opp. apply is_safe_opp. Qed.

Lemma plain_value_rev (r : list Z) : plain_value (rev r) = plain_value r.
Proof.
  unfold plain_value. rewrite delta_list_rev, is_safe_opp. apply is_safe_rev.
Qed.

End DeltaSymmetry.

Section DampenedSymmetry.

Lemma dampened_value_iff (r : list Z) :
  dampened_value r = true <->
  plain_value r = true \/
  exists i, 0 <= i <= Z.of_nat (length r) - 1 /\ plain_value (without r i) = true.
Proof. unfold dampened_value, plain_value. apply existsb_candidates. Qed.

Section Transport.

Variable T : list Z -> list Z.
Hypothesis T_plain : forall r, plain_value (T r) = plain_value r.
Hypothesis T_without : forall r j,
  0 <= j <= Z.of_nat (length r) - 1 ->
  exists i, 0 <= i <= Z.of_nat (length (T r)) - 1 /\ without (T r) i = T (without r j).

Lemma dampened_value_transport (r : list Z) :
  dampened_value r = true -> dampened_value (T r) = true.
Proof.
  rewrite !dampened_value_iff. intros [H|(j & Hj & H)].
  - left. rewrite T_plain. exact H.
  - right. destruct (T_without r j Hj) as (i & Hi & E).
    exists i. split; [exact Hi|]. rewrite E, T_plain. exact H.
Qed.

End Transport.

Lemma without_map (f : Z -> Z) (r : list Z) (i : Z) :
  without (map f r) i = map f (without r i).
Proof.
  unfold without. rewrite length_map.
  destruct (_ && _); [|reflexivity].
  rewrite map_app, firstn_map, skipn_map. reflexivity.
Qed.

Lemma without_rev (r : list Z) (j : Z) :
  0 <= j <= Z.of_nat (length r) - 1 ->
  without (rev r) (Z.of_nat (length r) - 1 - j) = rev (without r j).
Proof.
  intros Hj. unfold without. rewrite length_rev.
  destruct (Z.leb_spec 0 j); [|lia].
  destruct (Z.ltb_spec j (Z.of_nat (length r))); [|lia].
  destruct (Z.leb_spec 0 (Z.of_nat (length r) - 1 - j)); [|lia].
  destruct (Z.ltb_spec (Z.of_nat (length r) - 1 - j) (Z.of_nat (length r))); [|lia].
  cbn [andb]. rewrite rev_app_distr, firstn_rev, skipn_rev.
  f_equal; do 2 f_equal; lia.
Qed.

Lemma dampened_value_map (f g : Z -> Z) (r : list Z) :
  (forall s, plain_value (map f s) = plain_value s) ->
  (forall s, plain_value (map g s) = plain_value s) ->
  (forall x, g (f x) = x) ->
  dampened_value (map f r) = dampened_value r.
Proof.
  intros Hf Hg Hgf. apply eq_true_iff_eq. split.
  - intros H. apply (dampened_value_transport (map g)) in H.
    + rewrite map_map in H. rewrite (map_ext _ (fun x => x)) in H by exact Hgf.
      rewrite map_id in H. exact H.
    + exact Hg.
    + intros s j Hj. exists j. rewrite length_map. split; [exact Hj|].
      apply without_map.
  - apply (dampened_value_transport (map f)).
    + exact Hf.
    + intros s j Hj. exists j. rewrite length_map. split; [exact Hj|].
      apply without_map.
Qed.

Lemma dampened_value_shifted (c : Z) (r : list Z) :
  dampened_value (shifted c r) = dampened_value r.
Proof.
  apply (dampened_value_map (fun x => x + c) (fun x => x + - c)).
  - apply plain_value_shifted.
  - apply (plain_value_shifted (- c)).
  - intros x. lia.
Qed.

Lemma dampened_value_opp (r : list Z) :
  dampened_value (map Z.opp r) = dampened_value r.
Proof.
  apply (dampened_value_map Z.opp Z.opp).
  - apply plain_value_opp.
  - apply plain_value_opp.
  - intros x. lia.
Qed.

Lemma dampened_value_rev_imp (r : list Z) :
  dampened_value r = true -> dampened_value (rev r) = true.
Proof.
  apply (dampened_value_transport (@rev Z)).
  - apply plain_value_rev.
  - intros s j Hj. exists (Z.of_nat (length s) - 1 - j).
    rewrite length_rev. split; [lia|]. apply without_rev, Hj.
Qed.

Lemma dampened_value_rev (r : list Z) :
  dampened_value (rev r) = dampened_value r.
Proof.
  apply eq_true_iff_eq. split.
  - intros H. apply dampened_value_rev_imp in H.
    rewrite rev_involutive in H. exact H.
  - apply dampened_value_rev_imp.
Qed.

End DampenedSymmetry.

(** X4: adding one constant to every level of a record changes neither
    the delta sequence nor the verdict of either check. *)
Theorem shift_invariance (c : Z) (r : list Z) :
  deltas (shifted c r) = deltas r /\
  safe_plain (shifted c r) = safe_plain r /\
  is_safe_with_dampening (shifted c r) = is_safe_with_dampening r.
Proof.
  rewrite !deltas_total, !safe_plain_total, !is_safe_with_dampening_total.
  rewrite delta_list_shifted.
  fold (dampened_value (shifted c r)). fold (dampened_value r).
  rewrite dampened_value_shifted. repeat split.
Qed.

(** X5: negating every level of a record negates every delta and changes
    the verdict of neither check. *)
Theorem negation_invariance (r : list Z) :
  (exists ds, deltas r = Ok ds /\ deltas (map Z.opp r) = Ok (map Z.opp ds)) /\
  safe_plain (map Z.opp r) = safe_plain r /\
  is_safe_with_dampening (map Z.opp r) = is_safe_with_dampening r.
Proof.
  split; [|split].
  - exists (delta_list r). rewrite !deltas_total, delta_list_opp. split; reflexivity.
  - rewrite !safe_plain_total. f_equal. apply plain_value_opp.
  - rewrite !is_safe_with_dampening_total. f_equal. apply dampened_value_opp.
Qed.

(** X6: reading a record backwards changes the verdict of neither check;
    its deltas are the negated deltas of the record, in reverse order. *)
Theorem reversal_invariance (r : list Z) :
  (exists ds, deltas r = Ok ds /\ deltas (rev r) = Ok (map Z.opp (rev ds))) /\
  safe_plain (rev r) = safe_plain r /\
  is_safe_with_dampening (rev r) = is_safe_with_dampening r.
Proof.
  split; [|split].
  - exists (delta_list r). rewrite !deltas_total, delta_list_rev. split; reflexivity.
  - rewrite !safe_plain_total. f_equal. apply plain_value_rev.
  - rewrite !is_safe_with_dampening_total. f_equal. apply dampened_value_rev.
Qed.

(** X7: the verdict of [is_safe] is the same on a delta sequence, on its
    negation and on its reverse. *)
Theorem is_safe_symmetric (ds : list Z) :
  is_safe (map Z.opp ds) = is_safe ds /\ is_safe (rev ds) = is_safe ds.
Proof. split; [apply is_safe_opp|apply is_safe_rev]. Qed.

(** ** Further properties: the shape of a safe record *)

Section SafeShape.

Lemma plain_value_steps (r : list Z) :
  plain_value r = true <->
  all_steps increasing_step r \/ all_steps decreasing_step r.
Proof.
  unfold plain_value, all_steps. rewrite is_safe_iff, !Forall_delta_list.
  reflexivity.
Qed.

Lemma safe_plain_value (r : list Z) (b : bool) :
  safe_plain r = Ok b <-> plain_value r = b.
Proof. rewrite safe_plain_total. apply Ok_inj. Qed.

(** Steps between [lo] and [hi] add up over any stretch of the record. *)
Lemma steps_span (lo hi : Z) (r : list Z) :
  all_steps (fun d => lo <= d <= hi) r ->
  forall j n, (j + n < length r)%nat ->
    Z.of_nat n * lo <= nth (j + n) r 0 - nth j r 0 <= Z.of_nat n * hi.
Proof.
  intros Hsteps j n. induction n as [|n IH]; intros Hlen.
  - rewrite Nat.add_0_r. lia.
  - specialize (IH ltac:(lia)).
    specialize (Hsteps (j + n)%nat ltac:(lia)). unfold adjacent_diff in Hsteps.
    replace (j + S n)%nat with (S (j + n)) by lia. lia.
Qed.

Lemma all_steps_infix (P : Z -> Prop) (a b c : list Z) :
  all_steps P (a ++ b ++ c) -> all_steps P b.
Proof.
  intros H k Hk. specialize (H (length a + k)%nat).
  rewrite !length_app in H. unfold adjacent_diff in *.
  replace (S (length a + k)) with (length a + S k)%nat in H by lia.
  rewrite !app_nth2_plus in H. rewrite !app_nth1 in H by lia.
  apply H. lia.
Qed.

Lemma plain_value_infix (a b c : list Z) :
  plain_value (a ++ b ++ c) = true -> plain_value b = true.
Proof.
  rewrite !plain_value_steps.
  intros [H|H]; [left|right]; exact (all_steps_infix _ a b c H).
Qed.

Lemma without_first (r : list Z) : without r 0 = tl r.
Proof.
  destruct r as [|x r]; [apply without_nil|apply without_cons_head].
Qed.

Lemma without_last (r : list Z) :
  without r (Z.of_nat (length r) - 1) = firstn (length r - 1) r.
Proof.
  destruct r as [|x r]; [apply without_nil|].
  unfold without.
  destruct (Z.leb_spec 0 (Z.of_nat (length (x :: r)) - 1)) as [_|H];
    [|cbn [length] in H; lia].
  destruct (Z.ltb_spec (Z.of_nat (length (x :: r)) - 1) (Z.of_nat (length (x :: r))));
    [|lia].
  cbn [andb].
  replace (Z.to_nat (Z.of_nat (length (x :: r)) - 1)) with (length (x :: r) - 1)%nat
    by lia.
  replace (S (length (x :: r) - 1)) with (length (x :: r)) by (cbn [length]; lia).
  rewrite skipn_all, app_nil_r. reflexivity.
Qed.

End SafeShape.

(** X8: in a record that passes the plain check, any two levels at
    positions [j < k] differ by at least [k - j] and at most [3 (k - j)],
    all pairs in the same direction: the record is strictly monotonic. *)
Theorem safe_record_monotonic (r : list Z) (Hsafe : safe_plain r = Ok true) :
  (forall j k, (j < k < length r)%nat ->
     Z.of_nat (k - j) <= nth k r 0 - nth j r 0 <= 3 * Z.of_nat (k - j)) \/
  (forall j k, (j < k < length r)%nat ->
     Z.of_nat (k - j) <= nth j r 0 - nth k r 0 <= 3 * Z.of_nat (k - j)).
Proof.
  apply safe_plain_value, plain_value_steps in Hsafe.
  destruct Hsafe as [H|H]; [left|right]; intros j k Hjk.
  - pose proof (steps_span 1 3 r H j (k - j)%nat) as Hs.
    replace (j + (k - j))%nat with k in Hs by lia. lia.
  - pose proof (steps_span (-3) (-1) r H j (k - j)%nat) as Hs.
    replace (j + (k - j))%nat with k in Hs by lia. lia.
Qed.

Lemma safe_record_monotonic_witness :
  (forall j k, (j < k < length [7; 6; 4; 2; 1])%nat ->
     Z.of_nat (k - j) <= nth k [7; 6; 4; 2; 1] 0 - nth j [7; 6; 4; 2; 1] 0
       <= 3 * Z.of_nat (k - j)) \/
  (forall j k, (j < k < length [7; 6; 4; 2; 1])%nat ->
     Z.of_nat (k - j) <= nth j [7; 6; 4; 2; 1] 0 - nth k [7; 6; 4; 2; 1] 0
       <= 3 * Z.of_nat (k - j)).
Proof. apply (safe_record_monotonic [7; 6; 4; 2; 1]). reflexivity. Defined.

(** X9: a record that passes the plain check never contains the same
    level twice. *)
Theorem safe_record_NoDup (r : list Z) (Hsafe : safe_plain r = Ok true) :
  NoDup r.
Proof.
  apply safe_plain_value, plain_value_steps in Hsafe.
  apply (NoDup_nth r 0). intros j k Hj Hk E.
  destruct (Nat.lt_trichotomy j k) as [Hlt|[Heq|Hgt]]; [exfalso|exact Heq|exfalso].
  - destruct Hsafe as [H|H].
    + pose proof (steps_span 1 3 r H j (k - j)%nat) as Hs.
      replace (j + (k - j))%nat with k in Hs by lia. lia.
    + pose proof (steps_span (-3) (-1) r H j (k - j)%nat) as Hs.
      replace (j + (k - j))%nat with k in Hs by lia. lia.
  - destruct Hsafe as [H|H].
    + pose proof (steps_span 1 3 r H k (j - k)%nat) as Hs.
      replace (k + (j - k))%nat with j in Hs by lia. lia.
    + pose proof (steps_span (-3) (-1) r H k (j - k)%nat) as Hs.
      replace (k + (j - k))%nat with j in Hs by lia. lia.
Qed.

Lemma safe_record_NoDup_witness : NoDup [1; 3; 6; 7; 9].
Proof. apply (safe_record_NoDup [1; 3; 6; 7; 9]). reflexivity. Defined.

(** X10: every contiguous stretch of a record that passes the plain check
    passes it too. *)
Theorem safe_record_infix (a b c : list Z)
  (Hsafe : safe_plain (a ++ b ++ c) = Ok true) :
  safe_plain b = Ok true.
Proof.
  apply safe_plain_value. apply safe_plain_value in Hsafe.
  exact (plain_value_infix a b c Hsafe).
Qed.

Lemma safe_record_infix_witness : safe_plain [3; 6; 7] = Ok true.
Proof. apply (safe_record_infix [1] [3; 6; 7] [9]). reflexivity. Defined.

(** X11: on a record that passes the plain check, the dampening
    candidates that exclude the first and the last index pass as well. *)
Theorem safe_record_ends (r : list Z) (Hsafe : safe_plain r = Ok true) :
  safe_without r 0 = Ok true /\
  safe_without r (Z.of_nat (length r) - 1) = Ok true.
Proof.
  apply safe_plain_value in Hsafe.
  rewrite !safe_without_total, without_first, without_last.
  fold (plain_value (tl r)). fold (plain_value (firstn (length r - 1) r)).
  split; f_equal.
  - apply (plain_value_infix (firstn 1 r) (tl r) []).
    rewrite app_nil_r. change (tl r) with (skipn 1 r).
    rewrite firstn_skipn. exact Hsafe.
  - apply (plain_value_infix [] (firstn (length r - 1) r) (skipn (length r - 1) r)).
    cbn [app]. rewrite firstn_skipn. exact Hsafe.
Qed.

Lemma safe_record_ends_witness :
  safe_without [1; 3; 6; 7; 9] 0 = Ok true /\
  safe_without [1; 3; 6; 7; 9] (Z.of_nat (length [1; 3; 6; 7; 9]) - 1) = Ok true.
Proof. apply (safe_record_ends [1; 3; 6; 7; 9]). reflexivity. Defined.

(** ** Further properties: what excluding an index does to the deltas *)

Section Merging.

Lemma without_nat (r : list Z) (i : nat) :
  (i < length r)%nat ->
  without r (Z.of_nat i) = firstn i r ++ skipn (S i) r.
Proof.
  intros Hi. unfold without.
  destruct (Z.leb_spec 0 (Z.of_nat i)); [|lia].
  destruct (Z.ltb_spec (Z.of_nat i) (Z.of_nat (length r))); [|lia].
  cbn [andb]. rewrite Nat2Z.id. reflexivity.
Qed.

Lemma delta_list_drop (r : list Z) : forall i : nat,
  (i < length r)%nat ->
  delta_list (firstn i r ++ skipn (S i) r) = merged_deltas (delta_list r) i.
Proof.
  induction r as [|x r IH]; intros i Hi; cbn [length] in Hi; [lia|].
  destruct i as [|i].
  - destruct r; reflexivity.
  - destruct r as [|y l]; cbn [length] in Hi; [lia|].
    specialize (IH i ltac:(cbn [length]; lia)).
    destruct i as [|i].
    + destruct l as [|z l].
      * reflexivity.
      * unfold merged_deltas. cbn. f_equal. lia.
    + transitivity
        ((y - x) :: delta_list (firstn (S i) (y :: l) ++ skipn (S (S i)) (y :: l)));
        [reflexivity|].
      rewrite IH.
      change (delta_list (x :: y :: l)) with ((y - x) :: delta_list (y :: l)).
      generalize (delta_list (y :: l)). intros ds.
      unfold merged_deltas. cbn. rewrite ?Nat.sub_0_r. reflexivity.
Qed.

End Merging.

Section Tolerance.

Lemma is_safe_drop_middle (a m b : list Z) :
  is_safe (a ++ m ++ b) = true -> is_safe (a ++ b) = true.
Proof. rewrite !is_safe_iff, !Forall_app. tauto. Qed.

Lemma removelast_firstn_length {A : Type} (l : list A) :
  removelast l = firstn (length l - 1) l.
Proof.
  induction l as [|x [|y l] IH]; try reflexivity.
  change (removelast (x :: y :: l)) with (x :: removelast (y :: l)).
  rewrite IH. cbn [length Nat.sub firstn].
  rewrite Nat.sub_0_r. reflexivity.
Qed.

Lemma last_cons_default {A : Type} (l : list A) : forall x d,
  last (x :: l) d = last l x.
Proof.
  induction l as [|y l IH]; intros x d; [reflexivity|].
  change (last (x :: y :: l) d) with (last (y :: l) d).
  rewrite (IH y d), (IH y x). reflexivity.
Qed.

Lemma fold_add_deltas_loop (l : list Z) : forall prev acc,
  fold_left Z.add (deltas_loop prev l) acc = acc + (last l prev - prev).
Proof.
  induction l as [|x l IH]; intros prev acc.
  - cbn. lia.
  - cbn [deltas_loop fold_left]. rewrite IH, last_cons_default. lia.
Qed.

Lemma deltas_loop_same_shape (l : list Z) : forall l' prev prev',
  length l = length l' ->
  deltas_loop prev l = deltas_loop prev' l' ->
  l' = shifted (prev' - prev) l.
Proof.
  induction l as [|x l IH]; intros [|x' l'] prev prev' Hlen E;
    cbn [length] in Hlen; try discriminate; [reflexivity|].
  cbn [deltas_loop] in E. injection E as Ex E.
  cbn [shifted map]. fold (shifted (prev' - prev) l).
  rewrite (IH l' x x') by (lia || exact E).
  f_equal; [lia|]. f_equal. lia.
Qed.

End Tolerance.

(** X12: excluding an interior index [i] replaces the two deltas around it
    by their sum and leaves every other delta as it was. *)
Theorem dampened_merges (r : list Z) (i : nat)
  (Hlo : (0 < i)%nat) (Hhi : (S i < length r)%nat) :
  exists e ds,
    dampened r (Z.of_nat i) = Ok e /\ deltas r = Ok ds /\
    deltas e = Ok (firstn (i - 1) ds
                   ++ (nth (i - 1) ds 0 + nth i ds 0) :: skipn (S i) ds).
Proof.
  exists (without r (Z.of_nat i)), (delta_list r).
  rewrite dampened_total, !deltas_total. repeat split.
  rewrite without_nat by lia. rewrite delta_list_drop by lia.
  unfold merged_deltas. rewrite delta_list_length.
  destruct (Nat.ltb_spec 0 i); [|lia].
  destruct (Nat.leb_spec (S i) (length r - 1)); [|lia].
  reflexivity.
Qed.

Lemma dampened_merges_witness :
  exists e ds,
    dampened [1; 3; 2; 4; 5] (Z.of_nat 2) = Ok e /\ deltas [1; 3; 2; 4; 5] = Ok ds /\
    deltas e = Ok (firstn (2 - 1) ds
                   ++ (nth (2 - 1) ds 0 + nth 2 ds 0) :: skipn (S 2) ds).
Proof. apply (dampened_merges [1; 3; 2; 4; 5] 2); simpl; lia. Defined.

(** X13: excluding the first index drops the first delta, excluding the
    last index drops the last delta; no other delta changes. *)
Theorem dampened_ends (r : list Z) :
  exists e0 eN ds,
    dampened r 0 = Ok e0 /\ dampened r (Z.of_nat (length r) - 1) = Ok eN /\
    deltas r = Ok ds /\
    deltas e0 = Ok (tl ds) /\ deltas eN = Ok (removelast ds).
Proof.
  exists (without r 0), (without r (Z.of_nat (length r) - 1)), (delta_list r).
  rewrite !dampened_total, !deltas_total. repeat split.
  - destruct r as [|x r]; [reflexivity|].
    change 0 with (Z.of_nat 0). rewrite without_nat by (cbn [length]; lia).
    rewrite delta_list_drop by (cbn [length]; lia).
    reflexivity.
  - destruct r as [|x r]; [reflexivity|].
    replace (Z.of_nat (length (x :: r)) - 1) with (Z.of_nat (length r))
      by (cbn [length]; lia).
    rewrite without_nat by (cbn [length]; lia).
    rewrite delta_list_drop by (cbn [length]; lia).
    rewrite removelast_firstn_length. unfold merged_deltas.
    rewrite delta_list_length. cbn [length]. rewrite Nat.sub_succ, Nat.sub_0_r.
    destruct (Nat.leb_spec (S (length r)) (length r)); [lia|].
    rewrite andb_false_r. cbn [app].
    rewrite skipn_all2 by (rewrite delta_list_length; cbn [length]; lia).
    rewrite app_nil_r. reflexivity.
Qed.

(** X14: when the dampened check passes, all deltas of the record apart
    from at most two neighbouring ones already form a safe sequence. *)
Theorem dampening_tolerance (r : list Z)
  (Hsafe : is_safe_with_dampening r = Ok true) :
  exists (i : nat) (ds : list Z),
    deltas r = Ok ds /\ is_safe (firstn (i - 1) ds ++ skipn (S i) ds) = true.
Proof.
  rewrite is_safe_with_dampening_total in Hsafe. injection Hsafe as Hsafe.
  fold (dampened_value r) in Hsafe. apply dampened_value_iff in Hsafe.
  destruct Hsafe as [H|(j & Hj & H)].
  - exists 0%nat, (delta_list r). split; [apply deltas_total|].
    unfold plain_value in H. cbn [Nat.sub firstn app].
    rewrite <- (firstn_skipn 1 (delta_list r)) in H.
    apply is_safe_app in H. apply H.
  - exists (Z.to_nat j), (delta_list r). split; [apply deltas_total|].
    unfold plain_value in H.
    replace j with (Z.of_nat (Z.to_nat j)) in H by lia.
    rewrite without_nat, delta_list_drop in H by lia.
    exact (is_safe_drop_middle _ _ _ H).
Qed.

Lemma dampening_tolerance_witness :
  exists (i : nat) (ds : list Z),
    deltas [8; 6; 4; 4; 1] = Ok ds /\
    is_safe (firstn (i - 1) ds ++ skipn (S i) ds) = true.
Proof. apply (dampening_tolerance [8; 6; 4; 4; 1]). reflexivity. Defined.

(** X15: [dampened] raises for no record and no index, negative ones
    included: it yields one level fewer than the record when the index is
    one of [0 .. len-1], and as many as the record otherwise. *)
Theorem dampened_never_raises (r : list Z) (index : Z) :
  exists e, dampened r index = Ok e /\
    Z.of_nat (length e)
    = if (0 <=? index) && (index <? Z.of_nat (length r))
      then Z.of_nat (length r) - 1
      else Z.of_nat (length r).
Proof.
  exists (without r index). split; [apply dampened_total|].
  destruct (Z.leb_spec 0 index); destruct (Z.ltb_spec index (Z.of_nat (length r)));
    cbn [andb]; try (rewrite without_out_of_range by lia; reflexivity).
  rewrite without_length by lia. lia.
Qed.

(** X16: the deltas of a record add up to its last level minus its first. *)
Theorem deltas_telescope (first : Z) (rest : list Z) :
  exists ds, deltas (first :: rest) = Ok ds /\
             py_sum ds = last rest first - first.
Proof.
  exists (deltas_loop first rest). split; [reflexivity|].
  unfold py_sum. rewrite fold_add_deltas_loop. lia.
Qed.

(** X17: two records of the same length with the same deltas differ by a
    constant shift. *)
Theorem deltas_determine_shape (r r' : list Z)
  (Hlen : length r = length r') (Hds : deltas r = deltas r') :
  exists c, r' = shifted c r.
Proof.
  rewrite !deltas_total in Hds. injection Hds as Hds.
  destruct r as [|x l], r' as [|x' l']; cbn [length] in Hlen; try discriminate.
  - exists 0. reflexivity.
  - exists (x' - x). cbn [shifted map]. fold (shifted (x' - x) l).
    rewrite (deltas_loop_same_shape l l' x x') by (lia || exact Hds).
    f_equal. lia.
Qed.

Lemma deltas_determine_shape_witness : exists c, [11; 13; 12] = shifted c [1; 3; 2].
Proof. apply (deltas_determine_shape [1; 3; 2] [11; 13; 12]); reflexivity. Defined.
